(** * InkChatGPT: a shallow embedding of [app.py]

    The Streamlit script is modelled as a state-and-exception monad over the
    session: [st.session_state] (keys ["history"], ["crc"], ["messages"]),
    the process secret [st.secrets.OPENAI_API_KEY], and a trace of observable
    effects (widgets written, files saved, calls to the hosted services),
    and the one piece of process-wide library state the program writes: the
    in-memory chromadb collection that [Chroma.from_documents] fills.
    A Python exception keeps every mutation made before it was raised, so a
    computation returns the exception together with the state reached.

    The hosted services and third-party loaders (PyPDFLoader, OpenAIEmbeddings,
    ChatOpenAI, ConversationalRetrievalChain.run) are opaque:
    they are the fields of a [Services] record, each returning either a
    value or the exception it raised.  The text splitter is the one piece of
    third-party code whose behaviour a claim depends on; it is modelled in
    [Splitter] from langchain's [RecursiveCharacterTextSplitter]. *)

From Stdlib Require Import String Ascii List Bool Arith Lia ZArith.
Import ListNotations.

(** ** langchain's [RecursiveCharacterTextSplitter] (third-party code called
    at app.py:45-49), with its defaults [separators = ["\n\n", "\n", " ", ""]],
    [keep_separator = True], [strip_whitespace = True], [length_function = len].
    Python strings are lists of characters. *)
Module Splitter.

Definition str := list ascii.

Record TextSplitter := {
  chunk_size : nat;
  chunk_overlap : nat
}.

Record Document := {
  page_content : str;
  metadata : string
}.

Definition nl : ascii := Ascii.ascii_of_nat 10.

Definition default_separators : list str := [[nl; nl]; [nl]; [" "%char]; []].

Fixpoint str_eqb (a b : str) : bool :=
  match a, b with
  | [], [] => true
  | x :: a', y :: b' => Ascii.eqb x y && str_eqb a' b'
  | _, _ => false
  end.

Fixpoint is_prefix (p t : str) : bool :=
  match p, t with
  | [], _ => true
  | x :: p', y :: t' => Ascii.eqb x y && is_prefix p' t'
  | _ :: _, [] => false
  end.

(** [re.search(re.escape(sep), text)] *)
Fixpoint contains (sep t : str) : bool :=
  is_prefix sep t || match t with [] => false | _ :: t' => contains sep t' end.

(** [re.split(re.escape(sep), text)] for a non-empty literal [sep]: the
    pieces between the leftmost non-overlapping occurrences. [fuel] bounds
    the scan; [length t + 1] is enough since each step consumes a character. *)
Fixpoint split_on_go (fuel : nat) (sep t cur : str) : list str :=
  match fuel with
  | 0 => [rev cur ++ t]
  | S fuel' =>
      match t with
      | [] => [rev cur]
      | c :: t' =>
          if is_prefix sep t
          then rev cur :: split_on_go fuel' sep (skipn (length sep) t) []
          else split_on_go fuel' sep t' (c :: cur)
      end
  end.

Definition split_on (sep t : str) : list str := split_on_go (S (length t)) sep t [].

(** [_split_text_with_regex(text, separator, keep_separator=True)]: the
    separator is kept at the start of every piece but the first; empty
    pieces are dropped. *)
Definition split_text_with_regex (t sep : str) : list str :=
  let splits :=
    match sep with
    | [] => map (fun c => [c]) t
    | _ :: _ =>
        match split_on sep t with
        | [] => []
        | p0 :: rest => p0 :: map (fun p => sep ++ p) rest
        end
    end in
  filter (fun s => negb (str_eqb s [])) splits.

(** Characters for which Python's [str.isspace()] holds, in ASCII. *)
Definition is_space (c : ascii) : bool :=
  let n := Ascii.nat_of_ascii c in
  (Nat.leb 9 n && Nat.leb n 13) || (Nat.leb 28 n && Nat.leb n 32).

Fixpoint lstrip (s : str) : str :=
  match s with
  | [] => []
  | c :: s' => if is_space c then lstrip s' else s
  end.

Definition strip (s : str) : str := rev (lstrip (rev (lstrip s))).

Fixpoint join (sep : str) (xs : list str) : str :=
  match xs with
  | [] => []
  | [x] => x
  | x :: xs' => x ++ sep ++ join sep xs'
  end.

(** [_join_docs]: join, strip, and [None] for the empty string. *)
Definition join_docs (docs : list str) (sep : str) : option str :=
  let t := strip (join sep docs) in
  match t with [] => None | _ => Some t end.

Definition opt_to_list {A} (o : option A) : list A :=
  match o with Some x => [x] | None => [] end.

Section Merge.
Variable ts : TextSplitter.
Variable sep : str.

Definition sep_if (cur : list str) : nat := if Nat.ltb 0 (length cur) then length sep else 0.

(** The [while] loop of [_merge_splits] that drops the head of
    [current_doc] while [total > chunk_overlap] or the next split [d] does
    not fit; [len_] is [len(d)]. *)
Fixpoint pop_front (len_ : nat) (cur : list str) (total : nat) : list str * nat :=
  if Nat.ltb (chunk_overlap ts) total
     || (Nat.ltb (chunk_size ts) (total + len_ + sep_if cur) && Nat.ltb 0 total)
  then match cur with
       | [] => (cur, total)
       | x :: cur' =>
           pop_front len_ cur'
             (total - (length x + (if Nat.ltb 1 (length cur) then length sep else 0)))
       end
  else (cur, total).

(** The [for d in splits] loop of [_merge_splits], with [docs] the chunks
    emitted so far. *)
Fixpoint merge_go (splits : list str) (docs : list str) (cur : list str) (total : nat)
  : list str :=
  match splits with
  | [] => docs ++ opt_to_list (join_docs cur sep)
  | d :: rest =>
      let len_ := length d in
      let '(docs', cur', total') :=
        if Nat.ltb (chunk_size ts) (total + len_ + sep_if cur) then
          match cur with
          | [] => (docs, cur, total)
          | _ :: _ =>
              let docs' := docs ++ opt_to_list (join_docs cur sep) in
              let '(c, t) := pop_front len_ cur total in (docs', c, t)
          end
        else (docs, cur, total) in
      let cur'' := cur' ++ [d] in
      merge_go rest docs' cur''
        (total' + len_ + (if Nat.ltb 1 (length cur'') then length sep else 0))
  end.

Definition merge_splits (splits : list str) : list str := merge_go splits [] [] 0.

End Merge.

(** The separator choice of [_split_text]: the first separator that is
    empty or occurs in the text, with the separators after it. *)
Fixpoint choose (seps : list str) (t : str) : option (str * list str) :=
  match seps with
  | [] => None
  | s :: rest =>
      match s with
      | [] => Some ([], [])
      | _ :: _ => if contains s t then Some (s, rest) else choose rest t
      end
  end.

Definition choose_sep (seps : list str) (t : str) : str * list str :=
  match choose seps t with
  | Some p => p
  | None => (last seps [], [])
  end.

(** The [for s in splits] loop of [_split_text]: splits shorter than
    [chunk_size] are collected in [good] and merged; a longer split first
    flushes [good], then goes to [on_big] (appended as is when no separator
    is left, split recursively otherwise). *)
Fixpoint split_loop (ts : TextSplitter) (on_big : str -> list str) (ss good : list str)
  : list str :=
  match ss with
  | [] => match good with [] => [] | _ => merge_splits ts [] good end
  | s :: rest =>
      if Nat.ltb (length s) (chunk_size ts) then split_loop ts on_big rest (good ++ [s])
      else
        (match good with [] => [] | _ => merge_splits ts [] good end)
        ++ on_big s ++ split_loop ts on_big rest []
  end.

(** [_split_text(text, separators)].  The recursion goes to a strict suffix
    of [separators], so [fuel = length separators + 1] never runs out. *)
Fixpoint split_text_go (ts : TextSplitter) (fuel : nat) (t : str) (seps : list str)
  : list str :=
  match fuel with
  | 0 => []
  | S fuel' =>
      let '(separator, new_separators) := choose_sep seps t in
      let splits := split_text_with_regex t separator in
      split_loop ts
        (fun s => match new_separators with
                  | [] => [s]
                  | _ => split_text_go ts fuel' s new_separators
                  end)
        splits []
  end.

Definition split_text (ts : TextSplitter) (t : str) : list str :=
  split_text_go ts (S (length default_separators)) t default_separators.

(** [split_documents]: every document is split on its own; chunks keep the
    metadata of their document. *)
Definition split_documents (ts : TextSplitter) (docs : list Document) : list Document :=
  flat_map (fun d => map (fun c => {| page_content := c; metadata := metadata d |})
                         (split_text ts (page_content d))) docs.

End Splitter.

(** ** The application: [app.py] *)
Module App.

Import Splitter.
Open Scope string_scope.

(** Objects created by the libraries are opaque handles (Python identity).
    A [VectorStore] is a handle on the shared chromadb collection (the field
    [collection] of [Sess] below), not a copy of its contents. *)
Record VectorStore := { vs_id : nat }.
Record Chain := { crc_id : nat }.

(** What [Assistant(message=...).build_message()] and
    [User(message=...).build_message()] return: the code reads only
    [msg.role] and [msg.content] (app.py:119). *)
Record Message := { role : string; content : string }.

Definition Assistant_role : string := "assistant".
Definition User_role : string := "user".

Definition Turn := (string * string)%type.

Record UploadedFile := { name : string; data : string }.

(** The three loader classes of app.py:33-38. *)
Inductive Loader := PyPDFLoader | Docx2txtLoader | TextLoader.

(** Python exceptions: attribute lookups on [st.session_state], and
    whatever a library or hosted service raises (named by the call). *)
Inductive exn :=
| AttributeError (attr : string)
| ServiceError (call : string) (msg : string).

(** Observable effects. *)
Inductive Event :=
| UI_title (s : string)
| UI_error (s : string)
| UI_info (s : string)
| UI_write (role : string) (s : string)
| FileWritten (path : string)
| Call (call : string).

Record Sess := {
  history : option (list Turn);         (** st.session_state["history"] *)
  crc : option Chain;                   (** st.session_state.crc *)
  messages : option (list Message);     (** st.session_state["messages"] *)
  secret_key : string;                  (** st.secrets.OPENAI_API_KEY *)
  trace : list Event;
  collection : list Document
  (** The chunks stored in chromadb's collection "langchain".
      [Chroma.from_documents(chunks, embeddings)] passes no client, no
      collection name and no persist directory, so every call opens the
      collection "langchain" of chromadb's default in-memory client, which
      chromadb shares across the whole process; every vector store the
      program builds, and the retriever of every chain built on one, reads
      this one collection. *)
}.

Definition set_history (h : option (list Turn)) (s : Sess) : Sess :=
  {| history := h; crc := crc s; messages := messages s; secret_key := secret_key s;
     trace := trace s; collection := collection s |}.
Definition set_crc (c : option Chain) (s : Sess) : Sess :=
  {| history := history s; crc := c; messages := messages s; secret_key := secret_key s;
     trace := trace s; collection := collection s |}.
Definition set_messages (m : option (list Message)) (s : Sess) : Sess :=
  {| history := history s; crc := crc s; messages := m; secret_key := secret_key s;
     trace := trace s; collection := collection s |}.
Definition set_secret_key (k : string) (s : Sess) : Sess :=
  {| history := history s; crc := crc s; messages := messages s; secret_key := k;
     trace := trace s; collection := collection s |}.
Definition add_event (e : Event) (s : Sess) : Sess :=
  {| history := history s; crc := crc s; messages := messages s; secret_key := secret_key s;
     trace := trace s ++ [e]; collection := collection s |}.

(** Chunks upserted into the shared collection. *)
Definition add_to_collection (ds : list Document) (s : Sess) : Sess :=
  {| history := history s; crc := crc s; messages := messages s; secret_key := secret_key s;
     trace := trace s; collection := collection s ++ ds |}.

(** The state-and-exception monad: an exception is returned with the state
    reached when it was raised. *)
Definition M (A : Type) : Type := Sess -> (exn + A) * Sess.

Definition ret {A} (a : A) : M A := fun s => (inr a, s).
Definition bind {A B} (m : M A) (k : A -> M B) : M B :=
  fun s => match m s with
           | (inl e, s') => (inl e, s')
           | (inr a, s') => k a s'
           end.
Definition raise {A} (e : exn) : M A := fun s => (inl e, s).
Definition gets {A} (f : Sess -> A) : M A := fun s => (inr (f s), s).
Definition modify (f : Sess -> Sess) : M unit := fun s => (inr tt, f s).
Definition emit (e : Event) : M unit := modify (add_event e).

Notation "x <- m ;; k" := (bind m (fun x => k)) (at level 61, m at next level, right associativity).
Notation "m ;;; k" := (bind m (fun _ => k)) (at level 61, right associativity).

(** A call to a library or hosted service: recorded, then its outcome. *)
Definition call {A} (c : string) (r : exn + A) : M A :=
  emit (Call c) ;;; fun s => (r, s).

(** The hosted services and libraries, opaque. *)
Record Services := {
  save_file : string -> string -> exn + unit;             (** open(..,"wb").write *)
  load : Loader -> string -> exn + list Document;          (** loader.load() *)
  from_documents : list Document -> string -> exn + VectorStore;
      (** OpenAIEmbeddings + Chroma.from_documents, with the API key: the
          handle returned, or the exception raised *)
  upserted_on_failure : list Document -> string -> nat;
      (** when that call raises, how many of the chunks were already
          upserted: [from_texts] embeds and upserts batch after batch, so an
          embedding error in a later batch leaves the earlier ones written *)
  init_chain : VectorStore -> string -> exn + Chain;
      (** ChatOpenAI(...) + ConversationalRetrievalChain.from_llm *)
  crc_run : Chain -> string -> list Turn -> exn + string;  (** crc.run({...}) *)
  llm_invoke : string -> list Message -> exn + string       (** ChatOpenAI(streaming).invoke *)
}.

(** Strings as character lists, and Python's truthiness of a string. *)
Definition chars (s : string) : str := list_ascii_of_string s.
Definition truthy (s : string) : bool := negb (String.eqb s "").

(** [str.find]-style last index of [c] in [p], or -1. *)
Fixpoint rfind_go (c : ascii) (p : str) (i acc : Z) : Z :=
  match p with
  | [] => acc
  | x :: p' => rfind_go c p' (i + 1) (if Ascii.eqb x c then i else acc)
  end.
Definition rfind (c : ascii) (p : str) : Z := rfind_go c p 0 (-1).

(** [posixpath.splitext] (genericpath._splitext with sep "/" and extsep "."):
    the extension starts at the last dot after the last slash, unless only
    dots precede it in the last component. *)
Definition splitext (p : str) : str * str :=
  let sepIndex := rfind "/"%char p in
  let dotIndex := rfind "."%char p in
  if Z.ltb sepIndex dotIndex then
    let between := firstn (Z.to_nat dotIndex - Z.to_nat (sepIndex + 1))
                          (skipn (Z.to_nat (sepIndex + 1)) p) in
    if existsb (fun c => negb (Ascii.eqb c "."%char)) between
    then (firstn (Z.to_nat dotIndex) p, skipn (Z.to_nat dotIndex) p)
    else (p, [])
  else (p, []).

(** [os.path.join(a, b)] for POSIX paths. *)
Definition path_join (a b : str) : str :=
  match b with
  | "/"%char :: _ => b
  | _ => match rev a with
         | [] => b
         | "/"%char :: _ => app a b
         | _ => app a ("/"%char :: b)
         end
  end.

Definition loader_for (extension : str) : option Loader :=
  if str_eqb extension (chars ".pdf") then Some PyPDFLoader
  else if str_eqb extension (chars ".docx") then Some Docx2txtLoader
  else if str_eqb extension (chars ".txt") then Some TextLoader
  else None.

(** app.py:45-48 *)
Definition text_splitter : TextSplitter := {| chunk_size := 1000; chunk_overlap := 200 |}.

Definition unsupported_msg : string := "This document format is not supported!".
Definition assistant_message : string :=
  "Hello, you can upload a document and chat with me to ask questions related to its content. Start by adding OpenAI API Key in the sidebar.".
Definition key_info_msg : string := "Please add your OpenAI API key to continue.".

(** What a script run receives from its widgets. *)
Record Inputs := {
  typed_key : string;                (** st.sidebar.text_input("OpenAI API Key") *)
  uploaded : option UploadedFile;    (** st.file_uploader *)
  clicked : bool;                    (** the "Process File" button was pressed *)
  chat_text : option string          (** what the user submitted to st.chat_input *)
}.

Section Program.

Variable sv : Services.

(** [Chroma.from_documents(chunks, embeddings)] (app.py:50-51): the chunks
    go into the shared collection (all of them when the call returns, the
    batches written before the error when it raises). *)
Definition chroma_from_documents (chunks : list Document) (key : string) : M VectorStore :=
  emit (Call "Chroma.from_documents") ;;;
  fun s => match from_documents sv chunks key with
           | inr v => (inr v, add_to_collection chunks s)
           | inl e => (inl e, add_to_collection (firstn (upserted_on_failure sv chunks key) chunks) s)
           end.

(** [load_and_process_file] (app.py:21-52) *)
Definition load_and_process_file (file_data : UploadedFile) : M (option VectorStore) :=
  let file_name := path_join (chars "./") (chars (name file_data)) in
  call "write" (save_file sv (string_of_list_ascii file_name) (data file_data)) ;;;
  emit (FileWritten (string_of_list_ascii file_name)) ;;;
  let '(_, extension) := splitext file_name in
  match loader_for extension with
  | None => emit (UI_error unsupported_msg) ;;; ret None
  | Some loader =>
      documents <- call "loader.load" (load sv loader (string_of_list_ascii file_name)) ;;
      let chunks := split_documents text_splitter documents in
      key <- gets secret_key ;;
      vector_store <- chroma_from_documents chunks key ;;
      ret (Some vector_store)
  end.

(** [initialize_chat_model] (app.py:55-66) *)
Definition initialize_chat_model (vector_store : VectorStore) : M Chain :=
  key <- gets secret_key ;;
  call "ConversationalRetrievalChain.from_llm" (init_chain sv vector_store key).

(** [st.session_state.crc] and [st.session_state.messages]: attribute
    access raises [AttributeError] when the key is absent. *)
Definition get_crc : M Chain :=
  fun s => match crc s with Some c => (inr c, s) | None => (inl (AttributeError "crc"), s) end.
Definition get_messages : M (list Message) :=
  fun s => match messages s with
           | Some m => (inr m, s)
           | None => (inl (AttributeError "messages"), s)
           end.
Definition get_history : M (list Turn) :=
  fun s => match history s with
           | Some h => (inr h, s)
           | None => (inl (AttributeError "history"), s)
           end.

Fixpoint write_all (ms : list Message) : M unit :=
  match ms with
  | [] => ret tt
  | m :: ms' => emit (UI_write (role m) (content m)) ;;; write_all ms'
  end.

(** [handle_question] (app.py:100-131) *)
Definition handle_question (question : string) : M unit :=
  crc <- get_crc ;;
  modify (fun s => match history s with
                   | None => set_history (Some []) s
                   | Some _ => s
                   end) ;;;
  hist <- get_history ;;
  response <- call "crc.run" (crc_run sv crc question hist) ;;
  modify (fun s => set_history (Some (app hist [(question, response)])) s) ;;;
  msgs <- get_messages ;;
  write_all msgs ;;;
  key <- gets secret_key ;;
  msgs' <- get_messages ;;
  response' <- call "llm.invoke" (llm_invoke sv key msgs') ;;
  modify (fun s => set_messages (Some (app msgs' [{| role := Assistant_role; content := response' |}])) s).

(** [display_chat_history] (app.py:134-144) *)
Fixpoint show_turns (ts : list Turn) : M unit :=
  match ts with
  | [] => ret tt
  | (q, a) :: ts' =>
      emit (UI_write "markdown" ("**Question:** " ++ q)) ;;;
      emit (UI_write "write" a) ;;; emit (UI_write "write" "---") ;;; show_turns ts'
  end.

Definition display_chat_history : M unit :=
  fun s => match history s with
           | None => (inr tt, s)
           | Some h => (emit (UI_write "markdown" "## Chat History") ;;; show_turns h) s
           end.

(** [clear_history] (app.py:147-152) *)
Definition clear_history : M unit :=
  modify (fun s => match history s with
                   | Some _ => set_history None s
                   | None => s
                   end).

(** [main] (app.py:69-97) *)
Definition main (inp : Inputs) : M unit :=
  key <- gets secret_key ;;
  openai_api_key <-
    (if truthy key then ret key
     else
       let k := typed_key inp in
       modify (set_secret_key k) ;;;
       key' <- gets secret_key ;;
       (if truthy key' then ret tt else emit (UI_info key_info_msg)) ;;;
       ret k) ;;
  modify (set_messages (Some [{| role := Assistant_role; content := assistant_message |}])) ;;;
  emit (UI_write Assistant_role assistant_message) ;;;
  (* st.chat_input(disabled=(not openai_api_key)) returns None when disabled *)
  let prompt := if truthy openai_api_key then chat_text inp else None in
  match prompt with
  | Some p =>
      if truthy p then
        msgs <- get_messages ;;
        modify (set_messages (Some (app msgs [{| role := User_role; content := p |}]))) ;;;
        emit (UI_write User_role p) ;;;
        handle_question p
      else ret tt
  | None => ret tt
  end.

Definition is_some {A} (o : option A) : bool := match o with Some _ => true | None => false end.

(** [build_sidebar] (app.py:155-175) *)
Definition build_sidebar (inp : Inputs) : M unit :=
  emit (UI_title "InkChatGPT") ;;;
  key <- gets secret_key ;;
  let disabled := negb (is_some (uploaded inp)) && negb (truthy key) in
  (* a disabled button returns False *)
  let add_file := clicked inp && negb disabled in
  match uploaded inp with
  | Some f =>
      if add_file && prefix "sk-" key then
        vector_store <- load_and_process_file f ;;
        match vector_store with
        | Some vs =>
            crc <- initialize_chat_model vs ;;
            modify (set_crc (Some crc)) ;;;
            emit (UI_write Assistant_role ("File: `" ++ name f ++ "`, processed successfully!"))
        | None => ret tt
        end
      else ret tt
  | None => ret tt
  end.

(** One run of the script (app.py:178-180). *)
Definition app_run (inp : Inputs) : M unit := build_sidebar inp ;;; main inp.

End Program.

End App.

(** ** Properties of the application *)
Module AppFacts.

Import Splitter App.
Open Scope string_scope.
Open Scope list_scope.

(** Conversation Memory as [display_chat_history] and [handle_question]
    read it: an absent ["history"] key is the empty list. *)
Definition hist_of (s : Sess) : list Turn :=
  match history s with Some h => h | None => [] end.
Definition hist_len (s : Sess) : nat := length (hist_of s).

Definition greeting : Message := {| role := Assistant_role; content := assistant_message |}.

(** The spec's [RetrievalError]: a failure raised by the retrieval chain. *)
Definition spec_RetrievalError (e : exn) : bool :=
  match e with ServiceError c _ => String.eqb c "crc.run" | AttributeError _ => false end.

(** Concrete services: every call succeeds; the chain answers ["ans:" ++ q]
    and the streaming chat model answers ["chat"]. *)
Definition sv_ok : Services := {|
  save_file := fun _ _ => inr tt;
  load := fun _ _ => inr [];
  from_documents := fun _ _ => inr {| vs_id := 1 |};
  upserted_on_failure := fun _ _ => 0;
  init_chain := fun _ _ => inr {| crc_id := 7 |};
  crc_run := fun _ q _ => inr (String.append "ans:" q);
  llm_invoke := fun _ _ => inr "chat" |}.

(** The same services, but the streaming chat model call fails. *)
Definition sv_llm_fails : Services := {|
  save_file := fun _ _ => inr tt;
  load := fun _ _ => inr [];
  from_documents := fun _ _ => inr {| vs_id := 1 |};
  upserted_on_failure := fun _ _ => 0;
  init_chain := fun _ _ => inr {| crc_id := 7 |};
  crc_run := fun _ q _ => inr (String.append "ans:" q);
  llm_invoke := fun _ _ => inl (ServiceError "llm.invoke" "APIConnectionError") |}.

Definition sess0 : Sess :=
  {| history := None; crc := None; messages := None; secret_key := "sk-1"; trace := []; collection := [] |}.

Definition sess_ready : Sess :=
  {| history := Some []; crc := Some {| crc_id := 7 |}; messages := Some [greeting];
     secret_key := "sk-1"; trace := []; collection := [] |}.

Ltac run := repeat (unfold bind, ret, gets, modify, emit, call, raise in *; cbn in *).
Ltac run_noapp := repeat (unfold bind, ret, gets, modify, emit, call, raise in *; cbn -[app] in *).

Lemma write_all_state (ms : list Message) (s : Sess) :
  exists ev, write_all ms s = (inr tt, {| history := history s; crc := crc s;
                                         messages := messages s; secret_key := secret_key s;
                                         trace := trace s ++ ev;
                                         collection := collection s |}).
Proof.
  revert s; induction ms as [|m ms IH]; intro s.
  - exists []. destruct s; run. rewrite app_nil_r. reflexivity.
  - cbn. unfold bind, emit, modify. destruct (IH (add_event (UI_write (role m) (content m)) s))
      as [ev Hev].
    exists (UI_write (role m) (content m) :: ev). rewrite Hev. destruct s; cbn.
    rewrite <- app_assoc. reflexivity.
Qed.

(** C1 (amended).  Without a stored chain, or when [crc.run] fails, the
    length of Conversation Memory is unchanged; once [crc.run] answers [a],
    the history is the previous one followed by [(question, a)], whatever
    the later streaming chat-model call does. *)
Theorem handle_question_history (sv : Services) (q : string) (s : Sess) :
  match crc s with
  | None => handle_question sv q s = (inl (AttributeError "crc"), s)
  | Some c =>
      match crc_run sv c q (hist_of s) with
      | inl e => fst (handle_question sv q s) = inl e
                 /\ hist_len (snd (handle_question sv q s)) = hist_len s
      | inr a => history (snd (handle_question sv q s)) = Some (hist_of s ++ [(q, a)])
      end
  end.
Proof.
  unfold hist_len, hist_of.
  destruct s as [h c m k tr ix].
  destruct c as [c|]; [|reflexivity].
  unfold handle_question, get_crc, get_history, get_messages; run.
  destruct h as [h|]; run;
  destruct (crc_run sv c q _) as [e|a]; run; try (split; reflexivity);
  destruct m as [m|]; run; try reflexivity;
  match goal with |- context [write_all ?ms ?st] =>
    destruct (write_all_state ms st) as [ev Hev]; rewrite Hev end; run;
  destruct (llm_invoke sv k m); reflexivity.
Qed.

(** C1: a failure of the later streaming chat-model call still leaves the
    turn recorded: the operation raises, yet the history grew by one. *)
Lemma handle_question_llm_failure_keeps_turn :
  fst (handle_question sv_llm_fails "What is the title?" sess_ready)
    = inl (ServiceError "llm.invoke" "APIConnectionError")
  /\ hist_len (snd (handle_question sv_llm_fails "What is the title?" sess_ready))
     = hist_len sess_ready + 1.
Proof. split; vm_compute; reflexivity. Qed.

(** C2 (amended).  On a fully successful call, the recorded turn carries
    the answer of [crc.run], while the assistant message appended to
    ["messages"] carries the answer of the separate streaming chat model,
    invoked on the displayed messages. *)
Theorem handle_question_recorded_vs_displayed (sv : Services) (q : string) (s : Sess)
    (c : Chain) (m : list Message) (a b : string) :
  crc s = Some c -> messages s = Some m ->
  crc_run sv c q (hist_of s) = inr a ->
  llm_invoke sv (secret_key s) m = inr b ->
  fst (handle_question sv q s) = inr tt
  /\ history (snd (handle_question sv q s)) = Some (hist_of s ++ [(q, a)])
  /\ messages (snd (handle_question sv q s))
     = Some (m ++ [{| role := Assistant_role; content := b |}]).
Proof.
  intros Hc Hm Ha Hb.
  destruct s as [h c0 m0 k tr]; cbn in Hc, Hm, Hb; subst c0 m0.
  unfold hist_of in Ha; cbn in Ha.
  unfold handle_question, get_crc, get_history, get_messages, hist_of; run.
  destruct h as [h|]; run; rewrite Ha; run;
  match goal with |- context [write_all ?ms ?st] =>
    destruct (write_all_state ms st) as [ev Hev]; rewrite Hev end; run;
  rewrite Hb; run; auto.
Qed.

Lemma handle_question_recorded_vs_displayed_witness :
  (crc sess_ready = Some {| crc_id := 7 |} /\ messages sess_ready = Some [greeting]
   /\ crc_run sv_ok {| crc_id := 7 |} "hi" (hist_of sess_ready) = inr "ans:hi"
   /\ llm_invoke sv_ok (secret_key sess_ready) [greeting] = inr "chat")
  /\ (fst (handle_question sv_ok "hi" sess_ready) = inr tt
      /\ history (snd (handle_question sv_ok "hi" sess_ready))
         = Some (hist_of sess_ready ++ [("hi", "ans:hi")])
      /\ messages (snd (handle_question sv_ok "hi" sess_ready))
         = Some ([greeting] ++ [{| role := Assistant_role; content := "chat" |}])).
Proof.
  split.
  - repeat split; reflexivity.
  - apply (handle_question_recorded_vs_displayed sv_ok "hi" sess_ready {| crc_id := 7 |}
             [greeting] "ans:hi" "chat"); reflexivity.
Defined.

(** C2: the recorded answer and the displayed answer differ when the two
    model calls return different texts. *)
Lemma handle_question_recorded_differs_from_displayed :
  history (snd (handle_question sv_ok "hi" sess_ready)) = Some [("hi", "ans:hi")]
  /\ messages (snd (handle_question sv_ok "hi" sess_ready))
     = Some [greeting; {| role := Assistant_role; content := "chat" |}]
  /\ "ans:hi" <> "chat".
Proof. split; [|split]; [vm_compute; reflexivity | vm_compute; reflexivity | discriminate]. Qed.

(** C3 (amended).  With no chain stored (no document processed), asking
    raises the [AttributeError] of reading [st.session_state.crc], before
    any retrieval or model call, and leaves the whole session, Conversation
    Memory included, unchanged. *)
Theorem handle_question_without_document (sv : Services) (q : string) (s : Sess) :
  handle_question sv q (set_crc None s) = (inl (AttributeError "crc"), set_crc None s).
Proof. reflexivity. Qed.

(** C3: the failure is not one raised by the retrieval chain. *)
Lemma handle_question_without_document_not_retrieval_error :
  handle_question sv_ok "What is the title?" sess0 = (inl (AttributeError "crc"), sess0)
  /\ spec_RetrievalError (AttributeError "crc") = false.
Proof. split; reflexivity. Qed.

(** C8.  [clear_history] removes the ["history"] key: the history read
    afterwards is empty, [display_chat_history] shows nothing, and the next
    question is asked exactly as from an empty history. *)
Theorem clear_history_empties (sv : Services) (q : string) (s : Sess) :
  let s1 := snd (clear_history s) in
  fst (clear_history s) = inr tt
  /\ history s1 = None /\ hist_of s1 = []
  /\ display_chat_history s1 = (inr tt, s1)
  /\ match crc s with
     | Some _ => handle_question sv q s1 = handle_question sv q (set_history (Some []) s1)
     | None => True
     end.
Proof.
  destruct s as [[h|] [c|] m k tr ix]; cbn; repeat split; try reflexivity;
  unfold handle_question, get_crc, get_history; run; reflexivity.
Qed.

(** [load_and_process_file] touches only the trace, and a vector store it
    returns is the one [Chroma.from_documents] built over the chunks. *)
Lemma load_and_process_file_frame (sv : Services) (f : UploadedFile) (s : Sess) :
  let '(r, s') := load_and_process_file sv f s in
  history s' = history s /\ crc s' = crc s /\ messages s' = messages s
  /\ secret_key s' = secret_key s
  /\ match r with
     | inr (Some v) =>
         exists docs, from_documents sv (split_documents text_splitter docs) (secret_key s)
                      = inr v
     | _ => True
     end.
Proof.
  destruct s as [h c m k tr ix].
  unfold load_and_process_file; run.
  destruct (save_file sv _ _); run; [repeat split; auto|].
  destruct (splitext _) as [root ext]; run.
  destruct (loader_for ext) as [ld|]; run; [|repeat split; auto].
  destruct (load sv ld _) as [e|docs]; run; [repeat split; auto|].
  destruct (from_documents sv _ k) as [e|v] eqn:Hv; run; repeat split; eauto.
Qed.

Lemma initialize_chat_model_frame (sv : Services) (v : VectorStore) (s : Sess) :
  initialize_chat_model sv v s
  = (init_chain sv v (secret_key s), add_event (Call "ConversationalRetrievalChain.from_llm") s).
Proof. reflexivity. Qed.

Definition processed_msg (f : UploadedFile) : string :=
  "File: `" ++ name f ++ "`, processed successfully!".

(** [build_sidebar] with the monad unfolded. *)
Lemma build_sidebar_unfold (sv : Services) (inp : Inputs) (s : Sess) :
  build_sidebar sv inp s =
  let s0 := add_event (UI_title "InkChatGPT") s in
  match uploaded inp with
  | Some f =>
      if clicked inp && negb (negb (is_some (Some f)) && negb (truthy (secret_key s0)))
         && prefix "sk-" (secret_key s0)
      then match load_and_process_file sv f s0 with
           | (inl e, s1) => (inl e, s1)
           | (inr None, s1) => (inr tt, s1)
           | (inr (Some v), s1) =>
               match init_chain sv v (secret_key s1) with
               | inl e => (inl e, add_event (Call "ConversationalRetrievalChain.from_llm") s1)
               | inr c =>
                   (inr tt, add_event (UI_write Assistant_role (processed_msg f))
                              (set_crc (Some c)
                                 (add_event (Call "ConversationalRetrievalChain.from_llm") s1)))
               end
           end
      else (inr tt, s0)
  | None => (inr tt, s0)
  end.
Proof.
  unfold build_sidebar, bind, gets, emit, modify, ret.
  destruct (uploaded inp) as [f|]; [|reflexivity].
  destruct (_ && _); [|reflexivity].
  destruct (load_and_process_file sv f _) as [[e|[v|]] s1]; reflexivity.
Qed.

(** C9.  Processing a document (a whole [build_sidebar] run, whatever its
    outcome) leaves Conversation Memory, and the displayed messages, as they
    were. *)
Theorem build_sidebar_preserves_history (sv : Services) (inp : Inputs) (s : Sess) :
  history (snd (build_sidebar sv inp s)) = history s
  /\ messages (snd (build_sidebar sv inp s)) = messages s.
Proof.
  rewrite build_sidebar_unfold; cbv zeta.
  destruct (uploaded inp) as [f|]; [|destruct s; auto].
  destruct (_ && _); [|destruct s; auto].
  pose proof (load_and_process_file_frame sv f (add_event (UI_title "InkChatGPT") s)) as Hf.
  destruct (load_and_process_file sv f _) as [[e|[v|]] s1];
    destruct Hf as (Hh & Hc & Hm & Hk & _); destruct s; cbn in *; auto.
  destruct (init_chain sv v _); cbn; auto.
Qed.

(** What the Retriever of [st.session_state.crc] searches: the shared
    collection, once a chain is stored. *)
Definition visible_index (s : Sess) : option (list Document) :=
  match crc s with Some _ => Some (collection s) | None => None end.

(** [load_and_process_file] only adds chunks to the shared collection; when
    it returns a vector store, all the chunks of the loaded documents are in. *)
Lemma load_and_process_file_collection (sv : Services) (f : UploadedFile) (s : Sess) :
  let '(r, s') := load_and_process_file sv f s in
  (exists ws, collection s' = collection s ++ ws)
  /\ match r with
     | inr (Some v) =>
         exists docs, from_documents sv (split_documents text_splitter docs) (secret_key s) = inr v
                      /\ collection s' = collection s ++ split_documents text_splitter docs
     | _ => True
     end.
Proof.
  destruct s as [h c m k tr ix].
  unfold load_and_process_file, chroma_from_documents; run.
  destruct (save_file sv _ _); run; [split; [exists []; rewrite app_nil_r|]; auto|].
  destruct (splitext _) as [root ext]; run.
  destruct (loader_for ext) as [ld|]; run; [|split; [exists []; rewrite app_nil_r|]; auto].
  destruct (load sv ld _) as [e|docs]; run; [split; [exists []; rewrite app_nil_r|]; auto|].
  destruct (from_documents sv _ k) as [e|v] eqn:Hv; run; split; eauto.
Qed.

(** C6 (amended).  Processing a document never removes chunks from the
    shared collection, the index the stored chain retrieves from: it only
    appends to it.  [st.session_state.crc] is left unchanged by a run that
    raises, and is otherwise either unchanged or the chain [from_llm] built
    after [Chroma.from_documents] returned, the collection then holding the
    old chunks followed by all the new ones. *)
Theorem build_sidebar_extends_index (sv : Services) (inp : Inputs) (s : Sess) :
  let '(r, s') := build_sidebar sv inp s in
  (exists ws, collection s' = collection s ++ ws)
  /\ (match r with inl _ => crc s' = crc s | inr _ => True end)
  /\ (crc s' = crc s
      \/ (r = inr tt
          /\ exists v c docs,
               from_documents sv (split_documents text_splitter docs) (secret_key s) = inr v
               /\ init_chain sv v (secret_key s) = inr c
               /\ crc s' = Some c
               /\ collection s' = collection s ++ split_documents text_splitter docs)).
Proof.
  rewrite build_sidebar_unfold; cbv zeta.
  destruct (uploaded inp) as [f|];
    [|destruct s; split; [exists []; cbn; rewrite app_nil_r; reflexivity|]; auto].
  destruct (_ && _);
    [|destruct s; split; [exists []; cbn; rewrite app_nil_r; reflexivity|]; auto].
  pose proof (load_and_process_file_frame sv f (add_event (UI_title "InkChatGPT") s)) as Hf.
  pose proof (load_and_process_file_collection sv f (add_event (UI_title "InkChatGPT") s)) as Hcol.
  destruct (load_and_process_file sv f _) as [[e|[v|]] s1];
    destruct Hf as (Hh & Hc & Hm & Hk & _); destruct Hcol as [[ws Hws] Hv];
    destruct s; cbn in *;
    [split; [eauto|split; [exact Hc|left; exact Hc]]|
    |split; [eauto|split; [exact I|left; exact Hc]]].
  rewrite Hk.
  destruct (init_chain sv v secret_key0) as [e|c] eqn:Hi; cbn;
    [split; [eauto|split; [exact Hc|left; exact Hc]]|].
  split; [eauto|]. split; [exact I|]. right. split; [reflexivity|].
  destruct Hv as (docs & Hdocs & Hcoll). exists v, c, docs. rewrite Hcoll. auto.
Qed.

Definition doc_old : Document := {| page_content := chars "old"; metadata := "a.txt" |}.
Definition doc_new : Document := {| page_content := chars "new"; metadata := "b.txt" |}.

(** A session whose chain retrieves from a collection holding one chunk. *)
Definition sess_indexed : Sess :=
  {| history := Some []; crc := Some {| crc_id := 7 |}; messages := Some [greeting];
     secret_key := "sk-1"; trace := []; collection := [doc_old] |}.

Definition inp_process : Inputs :=
  {| typed_key := ""; uploaded := Some {| name := "b.txt"; data := "new" |};
     clicked := true; chat_text := None |}.

(** Services under which the new file embeds fine; [from_llm] raises or not. *)
Definition sv_new (chain : exn + Chain) : Services := {|
  save_file := fun _ _ => inr tt;
  load := fun _ _ => inr [doc_new];
  from_documents := fun _ _ => inr {| vs_id := 2 |};
  upserted_on_failure := fun _ _ => 0;
  init_chain := fun _ _ => chain;
  crc_run := fun _ q _ => inr (String.append "ans:" q);
  llm_invoke := fun _ _ => inr "chat" |}.

(** C6 fails as stated.  When [from_llm] raises after the chunks of the new
    file were embedded, the run raises and keeps the previous chain, whose
    index now also holds the new chunk; and a successful run leaves the old
    chunk next to the new one in the index of the new chain: the index is
    extended in place, not swapped. *)
Lemma build_sidebar_not_swap :
  (let '(r, s') := build_sidebar (sv_new (inl (ServiceError "from_llm" "ValidationError")))
                     inp_process sess_indexed in
   r = inl (ServiceError "from_llm" "ValidationError")
   /\ crc s' = crc sess_indexed
   /\ visible_index sess_indexed = Some [doc_old]
   /\ visible_index s' = Some [doc_old; doc_new])
  /\ (let '(r, s') := build_sidebar (sv_new (inr {| crc_id := 8 |})) inp_process sess_indexed in
      r = inr tt /\ crc s' = Some {| crc_id := 8 |}
      /\ visible_index s' = Some [doc_old; doc_new]).
Proof. vm_compute. repeat split. Qed.

(** [handle_question] only ever extends ["messages"]. *)
Lemma handle_question_messages_prefix (sv : Services) (q : string) (s : Sess)
    (g : Message) (r : list Message) :
  messages s = Some (g :: r) ->
  exists r', messages (snd (handle_question sv q s)) = Some (g :: r').
Proof.
  intro Hm. destruct s as [h [c|] m k tr ix]; cbn in Hm; subst m;
    [|exists r; reflexivity].
  unfold handle_question, get_crc, get_history, get_messages; run.
  destruct h as [h|]; run;
  destruct (crc_run sv c q _) as [e|a]; run; try (exists r; reflexivity);
  match goal with |- context [write_all ?ms ?st] =>
    destruct (write_all_state ms st) as [ev Hev]; rewrite Hev end; run;
  destruct (llm_invoke sv k _); run; eexists; reflexivity.
Qed.

(** C10.  Every run of [main] overwrites ["messages"] with the single
    greeting before it reads any input: its outcome does not depend on the
    messages of earlier runs, a run without a question leaves exactly the
    greeting and an untouched Conversation Memory, and every run ends with
    the greeting first. *)
Theorem main_resets_messages (sv : Services) (inp : Inputs) (s : Sess)
    (old : option (list Message)) :
  main sv inp (set_messages old s) = main sv inp s
  /\ match chat_text inp with
     | None => messages (snd (main sv inp s)) = Some [greeting]
               /\ history (snd (main sv inp s)) = history s
     | Some _ => True
     end
  /\ exists rest, messages (snd (main sv inp s)) = Some (greeting :: rest).
Proof.
  destruct s as [h c m k tr ix]. split; [|split].
  - unfold main; run. destruct (truthy k); run; [|destruct (truthy (typed_key inp))]; run.
    all: reflexivity.
  - destruct (chat_text inp) eqn:Ht; [exact I|].
    unfold main; run. rewrite Ht.
    repeat (match goal with |- context [truthy ?x] => destruct (truthy x) end; run).
    all: auto.
  - unfold main; run.
    destruct (chat_text inp) as [p|]; run;
    repeat (match goal with |- context [truthy ?x] => destruct (truthy x) end; run);
    try (exists []; reflexivity).
    all: match goal with |- context [handle_question ?sv ?p ?st] =>
        apply (handle_question_messages_prefix sv p st greeting [{| role := User_role; content := p |}]);
        reflexivity end.
Qed.

Lemma app_run_unfold (sv : Services) (inp : Inputs) (s : Sess) :
  app_run sv inp s = match build_sidebar sv inp s with
                     | (inl e, s') => (inl e, s')
                     | (inr _, s') => main sv inp s'
                     end.
Proof. reflexivity. Qed.

(** C7 (amended).  With no API key in the secrets and none typed, a run
    completes without raising: the Process File action is skipped (it
    requires a key starting with "sk-"), the chat input is disabled so no
    question is handled, no library or service is called (the only effects
    are the title, the request for a key and the greeting), and the
    session's chain and history are untouched. *)
Theorem app_run_without_key (sv : Services) (inp : Inputs) (s : Sess) :
  secret_key s = "" -> typed_key inp = "" ->
  fst (app_run sv inp s) = inr tt
  /\ crc (snd (app_run sv inp s)) = crc s
  /\ history (snd (app_run sv inp s)) = history s
  /\ trace (snd (app_run sv inp s))
     = trace s ++ [UI_title "InkChatGPT"; UI_info key_info_msg;
                   UI_write Assistant_role assistant_message].
Proof.
  intros Hk Ht. destruct s as [h c m k tr ix]; cbn in Hk; subst k.
  rewrite !app_run_unfold, !build_sidebar_unfold. cbv zeta.
  assert (Hs : forall f : UploadedFile, (clicked inp && negb (negb (is_some (Some f)) && negb (truthy ""))
                           && prefix "sk-" "") = false)
    by (intro; rewrite andb_false_r; reflexivity).
  destruct (uploaded inp) as [f|]; [rewrite Hs|];
  unfold main; run_noapp; rewrite Ht; run_noapp;
  destruct (chat_text inp); run_noapp; repeat split;
  rewrite <- !app_assoc; reflexivity.
Qed.

Definition inp_nokey : Inputs :=
  {| typed_key := ""; uploaded := Some {| name := "report.pdf"; data := "%PDF" |};
     clicked := true; chat_text := Some "What is the title?" |}.

Definition sess_nokey : Sess :=
  {| history := None; crc := None; messages := None; secret_key := ""; trace := []; collection := [] |}.

Lemma app_run_without_key_witness :
  (secret_key sess_nokey = "" /\ typed_key inp_nokey = "")
  /\ (fst (app_run sv_ok inp_nokey sess_nokey) = inr tt
      /\ crc (snd (app_run sv_ok inp_nokey sess_nokey)) = crc sess_nokey
      /\ history (snd (app_run sv_ok inp_nokey sess_nokey)) = history sess_nokey
      /\ trace (snd (app_run sv_ok inp_nokey sess_nokey))
         = trace sess_nokey ++ [UI_title "InkChatGPT"; UI_info key_info_msg;
                                UI_write Assistant_role assistant_message]).
Proof.
  split; [split; reflexivity|].
  apply app_run_without_key; reflexivity.
Defined.

(** C7: without a key, uploading, pressing Process File and submitting a
    question raises no error at all. *)
Lemma app_run_without_key_does_not_fail :
  fst (app_run sv_ok inp_nokey sess_nokey) = inr tt.
Proof. vm_compute. reflexivity. Qed.

(** *** [splitext] after [os.path.join("./", name)] *)

Lemma rfind_go_lower (c : ascii) (p : str) :
  forall i acc, (0 <= i)%Z -> (-1 <= acc)%Z -> (-1 <= rfind_go c p i acc)%Z.
Proof.
  induction p as [|x p IH]; intros i acc Hi Ha; cbn; [lia|].
  apply IH; [lia|]. destruct (Ascii.eqb x c); lia.
Qed.

Lemma rfind_go_spec (c : ascii) (p : str) :
  forall i acc, (0 <= i)%Z ->
  rfind_go c p i acc = if Z.eqb (rfind c p) (-1) then acc else (i + rfind c p)%Z.
Proof.
  unfold rfind. induction p as [|x p IH]; intros i acc Hi; cbn; [reflexivity|].
  rewrite (IH (i + 1)%Z) by lia. rewrite (IH 1%Z) by lia.
  pose proof (rfind_go_lower c p 0 (-1) ltac:(lia) ltac:(lia)) as Hl.
  destruct (Z.eqb_spec (rfind_go c p 0 (-1)) (-1)) as [E|E].
  - destruct (Ascii.eqb x c); cbn; lia.
  - destruct (Z.eqb_spec (1 + rfind_go c p 0 (-1)) (-1)); [lia|]. lia.
Qed.

Lemma rfind_dot_slash (c : ascii) (n : str) :
  rfind c ("."%char :: "/"%char :: n)
  = if Z.eqb (rfind c n) (-1) then rfind c ["."%char; "/"%char] else (2 + rfind c n)%Z.
Proof.
  unfold rfind at 1. cbn -[rfind]. rewrite rfind_go_spec by lia.
  destruct (Z.eqb (rfind c n) (-1)); [|reflexivity].
  cbn. reflexivity.
Qed.

Lemma rfind_ge (c : ascii) (n : str) : (-1 <= rfind c n)%Z.
Proof. apply rfind_go_lower; lia. Qed.

(** Joining with ["./"] does not change the extension of a file name. *)
Lemma splitext_path_join_ext (n : str) :
  snd (splitext (path_join (chars "./") n)) = snd (splitext n).
Proof.
  destruct n as [|x n0] eqn:En.
  - reflexivity.
  - assert (Hj : x = "/"%char \/ path_join (chars "./") n = "."%char :: "/"%char :: n).
    { destruct (Ascii.eqb_spec x "/"%char) as [->|Hx]; [left; reflexivity|right].
      subst n. cbn.
      destruct x as [b0 b1 b2 b3 b4 b5 b6 b7];
        destruct b0, b1, b2, b3, b4, b5, b6, b7; try reflexivity; exfalso; apply Hx; reflexivity. }
    rewrite <- En. destruct Hj as [Hx|Hj].
    { subst x n. reflexivity. }
    rewrite Hj. clear Hj En x n0.
    unfold splitext.
    rewrite (rfind_dot_slash "/"%char n), (rfind_dot_slash "."%char n).
    change (rfind "/"%char ["."%char; "/"%char]) with 1%Z.
    change (rfind "."%char ["."%char; "/"%char]) with 0%Z.
    pose proof (rfind_ge "/"%char n) as Hs. pose proof (rfind_ge "."%char n) as Hd.
    set (d := rfind "."%char n) in *. set (t := rfind "/"%char n) in *.
    destruct (Z.eqb_spec d (-1)) as [Ed|Ed]; destruct (Z.eqb_spec t (-1)) as [Es|Es];
    repeat match goal with |- context [Z.ltb ?a ?b] => destruct (Z.ltb_spec a b) end;
    try lia; try reflexivity.
    + replace (Z.to_nat (2 + d)) with (S (S (Z.to_nat d))) by lia.
      replace (Z.to_nat (t + 1)) with 0 by lia.
      change (Z.to_nat (1 + 1)) with 2.
      cbn [skipn firstn Nat.sub]. rewrite Nat.sub_0_r.
      destruct (existsb _ _); reflexivity.
    + replace (Z.to_nat (2 + d)) with (S (S (Z.to_nat d))) by lia.
      replace (Z.to_nat (2 + t + 1)) with (S (S (Z.to_nat (t + 1)))) by lia.
      cbn [skipn firstn Nat.sub].
      destruct (existsb _ _); reflexivity.
Qed.

Definition saved_path (f : UploadedFile) : string :=
  string_of_list_ascii (path_join (chars "./") (chars (name f))).

(** C4.  The loader is chosen from the extension of the file name alone;
    when that extension is none of ".pdf", ".docx", ".txt", the upload is
    saved, the error "This document format is not supported!" is shown,
    and no vector store is produced: no loader and no embedding service is
    called, and the result is [None] (or the exception of the save). *)
Theorem load_unsupported_format (sv : Services) (f : UploadedFile) (s : Sess) :
  loader_for (snd (splitext (chars (name f)))) = None ->
  load_and_process_file sv f s
  = match save_file sv (saved_path f) (data f) with
    | inl e => (inl e, add_event (Call "write") s)
    | inr _ => (inr None,
                add_event (UI_error unsupported_msg)
                  (add_event (FileWritten (saved_path f)) (add_event (Call "write") s)))
    end.
Proof.
  intro Hl. rewrite <- splitext_path_join_ext in Hl.
  unfold load_and_process_file, saved_path.
  unfold bind at 1, call at 1, bind at 1, emit at 1, modify at 1.
  destruct (save_file sv _ (data f)) as [e|u]; [reflexivity|].
  unfold bind at 1, emit at 1, modify at 1.
  destruct (splitext (path_join (chars "./") (chars (name f)))) as [root ext].
  cbn in Hl. rewrite Hl. reflexivity.
Qed.

Definition epub_file : UploadedFile := {| name := "notes.epub"; data := "PK" |}.

Lemma load_unsupported_format_witness :
  loader_for (snd (splitext (chars (name epub_file)))) = None
  /\ load_and_process_file sv_ok epub_file sess0
     = match save_file sv_ok (saved_path epub_file) (data epub_file) with
       | inl e => (inl e, add_event (Call "write") sess0)
       | inr _ => (inr None,
                   add_event (UI_error unsupported_msg)
                     (add_event (FileWritten (saved_path epub_file))
                        (add_event (Call "write") sess0)))
       end.
Proof.
  split; [vm_compute; reflexivity|].
  apply load_unsupported_format. vm_compute. reflexivity.
Defined.

End AppFacts.

(** ** Properties of the chunker *)
Module SplitterFacts.

Import Splitter.
Open Scope list_scope.

Definition fits (cs : nat) (c : str) : Prop := length c <= cs.

Lemma join_nil_concat (xs : list str) : join [] xs = concat xs.
Proof.
  induction xs as [|x xs IH]; [reflexivity|].
  destruct xs as [|y ys].
  - cbn. rewrite app_nil_r. reflexivity.
  - change (join [] (x :: y :: ys)) with (x ++ [] ++ join [] (y :: ys)).
    rewrite IH. reflexivity.
Qed.

Lemma lstrip_length (s : str) : length (lstrip s) <= length s.
Proof.
  induction s as [|c s IH]; cbn; [lia|]. destruct (is_space c); cbn; lia.
Qed.

Lemma strip_length (s : str) : length (strip s) <= length s.
Proof.
  unfold strip. rewrite length_rev.
  pose proof (lstrip_length (rev (lstrip s))) as H1. rewrite length_rev in H1.
  pose proof (lstrip_length s). lia.
Qed.

Lemma join_docs_fits (cs : nat) (cur : list str) :
  length (concat cur) <= cs -> Forall (fits cs) (opt_to_list (join_docs cur [])).
Proof.
  intro H. unfold join_docs. rewrite join_nil_concat.
  pose proof (strip_length (concat cur)).
  destruct (strip (concat cur)) eqn:E; cbn; [constructor|].
  constructor; [|constructor]. unfold fits. lia.
Qed.

Section Bound.
Variable ts : TextSplitter.

(** The drop loop keeps [total] equal to the length of [current_doc], and
    ends with room for the next split (or with nothing left). *)
Lemma pop_front_spec (len_ : nat) (cur : list str) (total : nat) :
  total = length (concat cur) ->
  let '(cur', total') := pop_front ts [] len_ cur total in
  total' = length (concat cur') /\ (total' + len_ <= (chunk_size ts) \/ total' = 0).
Proof.
  revert total. induction cur as [|x cur IH]; intros total Ht.
  - cbn in Ht. subst total. cbn.
    match goal with |- context [if ?b then _ else _] => destruct b end; cbn; auto.
  - cbn -[Nat.ltb]. unfold sep_if. cbn [length].
    repeat match goal with |- context [if ?b then 0 else 0] =>
      replace (if b then 0 else 0) with 0 by (destruct b; reflexivity) end.
    destruct (Nat.ltb (chunk_overlap ts) total
              || (Nat.ltb (chunk_size ts) (total + len_ + 0) && Nat.ltb 0 total)) eqn:Hc.
    + apply IH. cbn in Ht. rewrite length_app in Ht. lia.
    + apply orb_false_iff in Hc. destruct Hc as [_ Hc].
      apply andb_false_iff in Hc.
      destruct Hc as [Hc|Hc]; apply Nat.ltb_ge in Hc; split; auto; lia.
Qed.

Lemma if_zero (b : bool) : (if b then 0 else 0) = 0.
Proof. destruct b; reflexivity. Qed.

(** One step of [_merge_splits] with the empty separator. *)
Lemma merge_go_cons (d : str) (rest docs cur : list str) (total : nat) :
  merge_go ts [] (d :: rest) docs cur total =
  if Nat.ltb (chunk_size ts) (total + length d) then
    match cur with
    | [] => merge_go ts [] rest docs [d] (total + length d)
    | _ :: _ =>
        let '(c, t) := pop_front ts [] (length d) cur total in
        merge_go ts [] rest (docs ++ opt_to_list (join_docs cur [])) (c ++ [d]) (t + length d)
    end
  else merge_go ts [] rest docs (cur ++ [d]) (total + length d).
Proof.
  cbn [merge_go]. unfold sep_if. cbn [length]. rewrite if_zero, Nat.add_0_r.
  destruct (Nat.ltb (chunk_size ts) (total + length d));
    [destruct cur as [|c0 cur0];
     [|destruct (pop_front ts [] (length d) (c0 :: cur0) total)]|];
    rewrite if_zero, Nat.add_0_r; reflexivity.
Qed.

Lemma merge_go_fits (splits docs cur : list str) (total : nat) :
  Forall (fun d => length d < chunk_size ts) splits ->
  Forall (fits (chunk_size ts)) docs ->
  total = length (concat cur) -> total <= chunk_size ts ->
  Forall (fits (chunk_size ts)) (merge_go ts [] splits docs cur total).
Proof.
  revert docs cur total.
  induction splits as [|d rest IH]; intros docs cur total Hs Hd Ht Hle.
  - cbn. apply Forall_app; split; [exact Hd|]. apply join_docs_fits. lia.
  - inversion Hs as [|? ? Hlen Hrest]; subst.
    rewrite merge_go_cons.
    destruct (Nat.ltb_spec (chunk_size ts) (length (concat cur) + length d)) as [Hc|Hc].
    + destruct cur as [|c0 cur0].
      * apply IH; auto; cbn; rewrite ?app_nil_r; cbn in Hc; lia.
      * pose proof (pop_front_spec (length d) (c0 :: cur0) (length (concat (c0 :: cur0))) eq_refl)
          as Hp.
        destruct (pop_front ts [] (length d) (c0 :: cur0) _) as [c' t'] eqn:Ep.
        destruct Hp as [Ht' Hroom].
        apply IH; auto.
        -- apply Forall_app; split; [exact Hd|]. apply join_docs_fits. lia.
        -- rewrite concat_app, length_app; cbn. rewrite app_nil_r. lia.
        -- lia.
    + apply IH; auto.
      rewrite concat_app, length_app; cbn. rewrite app_nil_r. lia.
Qed.

Lemma merge_splits_fits (splits : list str) :
  Forall (fun d => length d < (chunk_size ts)) splits -> Forall (fits (chunk_size ts)) (merge_splits ts [] splits).
Proof. intro H. apply merge_go_fits; auto; cbn; lia. Qed.

Lemma split_loop_fits (on_big : str -> list str) (ss good : list str) :
  (forall s, In s ss -> (chunk_size ts) <= length s -> Forall (fits (chunk_size ts)) (on_big s)) ->
  Forall (fun d => length d < (chunk_size ts)) good ->
  Forall (fits (chunk_size ts)) (split_loop ts on_big ss good).
Proof.
  revert good. induction ss as [|s rest IH]; intros good Hbig Hg; cbn [split_loop].
  - destruct good; [constructor|]. apply merge_splits_fits; auto.
  - destruct (Nat.ltb_spec (length s) (chunk_size ts)) as [Hl|Hl].
    + apply IH; [intros; apply Hbig; auto; right; auto|].
      apply Forall_app; split; auto.
    + apply Forall_app; split; [destruct good; [constructor|]; apply merge_splits_fits; auto|].
      apply Forall_app; split; [apply Hbig; auto; left; auto|].
      apply IH; auto. intros; apply Hbig; auto; right; auto.
Qed.

End Bound.

Lemma choose_spec (seps : list str) (t : str) :
  In [] seps ->
  exists sep new, choose seps t = Some (sep, new)
                  /\ ((sep = [] /\ new = []) \/ (sep <> [] /\ In [] new)).
Proof.
  induction seps as [|s rest IH]; intro Hin; [destruct Hin|].
  cbn. destruct s as [|c s'].
  - exists [], []. auto.
  - destruct Hin as [Hin|Hin]; [discriminate|].
    destruct (contains (c :: s') t).
    + exists (c :: s'), rest. split; auto. right; split; [discriminate|auto].
    + apply IH; auto.
Qed.

Lemma split_text_with_regex_nil (t : str) (s : str) :
  In s (split_text_with_regex t []) -> length s = 1.
Proof.
  unfold split_text_with_regex. intro H. apply filter_In in H. destruct H as [H _].
  apply in_map_iff in H. destruct H as [c [<- _]]. reflexivity.
Qed.

Lemma split_text_go_fits (ts : TextSplitter) (fuel : nat) :
  1 < chunk_size ts ->
  forall t seps, In [] seps -> Forall (fits (chunk_size ts)) (split_text_go ts fuel t seps).
Proof.
  intro H1. induction fuel as [|fuel IH]; intros t seps Hin; cbn [split_text_go]; [constructor|].
  unfold choose_sep. destruct (choose_spec seps t Hin) as (sep & new & Hc & Hcase).
  rewrite Hc. apply split_loop_fits; [|constructor].
  intros s Hs Hbig. destruct Hcase as [[-> ->]|[_ Hn]].
  - apply split_text_with_regex_nil in Hs. lia.
  - destruct new as [|n0 new0]; [destruct Hn|]. apply IH; auto.
Qed.

Lemma default_separators_has_empty : In [] default_separators.
Proof. cbn. auto. Qed.

(** The spec's overlap requirement on two consecutive chunks: the last [O]
    characters of the first are the first [O] characters of the second. *)
Definition lastn {A} (n : nat) (l : list A) : list A := skipn (length l - n) l.
Definition spec_overlaps (O : nat) (c1 c2 : str) : bool := str_eqb (lastn O c1) (firstn O c2).

(** C5 (amended).  The chunker of [load_and_process_file] is configured with
    [chunk_size = 1000] and [chunk_overlap = 200], and every chunk it
    produces has at most 1000 characters. *)
Theorem chunker_config_and_bound (docs : list Document) :
  chunk_size App.text_splitter = 1000 /\ chunk_overlap App.text_splitter = 200
  /\ Forall (fun d => length (page_content d) <= 1000)
            (split_documents App.text_splitter docs).
Proof.
  split; [reflexivity|]. split; [reflexivity|].
  apply Forall_forall. intros c Hc.
  unfold split_documents in Hc. apply in_flat_map in Hc. destruct Hc as [d [_ Hc]].
  apply in_map_iff in Hc. destruct Hc as [x [<- Hx]]. cbn [page_content].
  assert (Hf : Forall (fits (chunk_size App.text_splitter)) (split_text App.text_splitter (page_content d))).
  { apply split_text_go_fits; [cbn; lia|]. apply default_separators_has_empty. }
  rewrite Forall_forall in Hf. apply (Hf x Hx).
Qed.

(** Three 600-character words separated by spaces. *)
Definition three_words : Document :=
  {| page_content := repeat "A"%char 600 ++ [" "%char] ++ repeat "B"%char 600
                     ++ [" "%char] ++ repeat "C"%char 600;
     metadata := "notes.txt" |}.

(** C5: the splitter only overlaps whole pieces; here no two consecutive
    chunks share anything, though the second chunk is not the last. *)
Lemma chunker_overlap_not_exact :
  map page_content (split_documents App.text_splitter [three_words])
    = [repeat "A"%char 600; repeat "B"%char 600; repeat "C"%char 600]
  /\ spec_overlaps 200 (repeat "A"%char 600) (repeat "B"%char 600) = false.
Proof. split; vm_compute; reflexivity. Qed.

End SplitterFacts.

(** ** Further properties of [app.py] and of the chunker it calls *)
Module Extras.

Import Splitter App AppFacts SplitterFacts.
Open Scope string_scope.
Open Scope list_scope.

(** What [display_chat_history] writes for one turn (app.py:142-144). *)
Definition render_turn (t : Turn) : list Event :=
  [UI_write "markdown" ("**Question:** " ++ fst t)%string; UI_write "write" (snd t);
   UI_write "write" "---"].

Lemma show_turns_trace (h : list Turn) (s : Sess) :
  show_turns h s
  = (inr tt, {| history := history s; crc := crc s; messages := messages s;
                secret_key := secret_key s; trace := trace s ++ flat_map render_turn h;
                collection := collection s |}).
Proof.
  revert s. induction h as [|[q a] h IH]; intro s.
  - destruct s; cbn. unfold ret. rewrite app_nil_r. reflexivity.
  - cbn [show_turns]. unfold bind, emit, modify. rewrite IH.
    destruct s; cbn. rewrite <- !app_assoc. reflexivity.
Qed.

(** [display_chat_history] changes nothing but the page: with no
    ["history"] key it writes nothing, otherwise a "## Chat History" header
    and then, for every turn in order, its question, its answer and a rule. *)
Theorem display_chat_history_output (s : Sess) :
  display_chat_history s
  = match history s with
    | None => (inr tt, s)
    | Some h =>
        (inr tt, {| history := history s; crc := crc s; messages := messages s;
                    secret_key := secret_key s;
                    trace := trace s ++ UI_write "markdown" "## Chat History"
                                         :: flat_map render_turn h;
                    collection := collection s |})
    end.
Proof.
  unfold display_chat_history. destruct (history s) as [h|] eqn:Hh; [|reflexivity].
  unfold bind, emit, modify. rewrite show_turns_trace.
  destruct s; cbn in *. rewrite Hh, <- app_assoc. reflexivity.
Qed.

(** *** [splitext] *)

Lemma rfind_go_found (c : ascii) (p : str) :
  forall i acc, rfind_go c p i acc = acc
                \/ ((i <= rfind_go c p i acc)%Z
                    /\ nth_error p (Z.to_nat (rfind_go c p i acc - i)) = Some c).
Proof.
  induction p as [|x p IH]; intros i acc; cbn; [left; reflexivity|].
  destruct (IH (i + 1)%Z (if Ascii.eqb x c then i else acc)) as [E|[Hle Hn]].
  - rewrite E. destruct (Ascii.eqb_spec x c) as [->|]; [right|left; reflexivity].
    split; [lia|]. replace (i - i)%Z with 0%Z by lia. reflexivity.
  - right. split; [lia|].
    replace (Z.to_nat (rfind_go c p (i + 1) _ - i))
      with (S (Z.to_nat (rfind_go c p (i + 1) (if Ascii.eqb x c then i else acc) - (i + 1))))
      by lia.
    exact Hn.
Qed.

Lemma rfind_found (c : ascii) (p : str) :
  rfind c p = (-1)%Z \/ ((0 <= rfind c p)%Z /\ nth_error p (Z.to_nat (rfind c p)) = Some c).
Proof.
  unfold rfind. destruct (rfind_go_found c p 0 (-1)) as [E|[Hle Hn]]; [left; exact E|].
  right. rewrite Z.sub_0_r in Hn. auto.
Qed.

Lemma skipn_nth_error {A} (l : list A) (k : nat) (x : A) :
  nth_error l k = Some x -> exists r, skipn k l = x :: r.
Proof.
  revert k. induction l as [|y l IH]; intros [|k] H; cbn in *; try discriminate.
  - injection H as ->. eauto.
  - apply IH. exact H.
Qed.

(** [os.path.splitext] splits a path into a root and an extension that
    concatenate back to the path; the extension is empty or starts with
    a dot. *)
Theorem splitext_roundtrip (p : str) :
  fst (splitext p) ++ snd (splitext p) = p
  /\ (snd (splitext p) = [] \/ exists r, snd (splitext p) = "."%char :: r).
Proof.
  unfold splitext.
  destruct (Z.ltb_spec (rfind "/"%char p) (rfind "."%char p)) as [Hlt|Hge];
    [|split; [apply app_nil_r|left; reflexivity]].
  destruct (existsb _ _); [|split; [apply app_nil_r|left; reflexivity]].
  cbn [fst snd]. split; [apply firstn_skipn|right].
  destruct (rfind_found "."%char p) as [E|[_ Hn]].
  - pose proof (rfind_ge "/"%char p). lia.
  - apply skipn_nth_error in Hn. exact Hn.
Qed.

(** *** The sidebar and [main] *)

(** The Process File action runs only when the button was pressed, a file
    is uploaded and the key starts with "sk-"; otherwise the sidebar only
    draws its title: nothing is saved, loaded or embedded, and the session
    is untouched. *)
Theorem build_sidebar_gate (sv : Services) (inp : Inputs) (s : Sess) :
  clicked inp && is_some (uploaded inp) && prefix "sk-" (secret_key s) = false ->
  build_sidebar sv inp s = (inr tt, add_event (UI_title "InkChatGPT") s).
Proof.
  intro Hg. rewrite build_sidebar_unfold. cbv zeta.
  destruct (uploaded inp) as [f|]; [|reflexivity].
  cbn [is_some] in Hg. rewrite andb_true_r in Hg.
  replace (secret_key (add_event (UI_title "InkChatGPT") s)) with (secret_key s)
    by (destruct s; reflexivity).
  cbn [is_some negb andb]. rewrite andb_true_r.
  rewrite Hg. reflexivity.
Qed.

Definition inp_no_click : Inputs :=
  {| typed_key := ""; uploaded := Some {| name := "report.pdf"; data := "%PDF" |};
     clicked := false; chat_text := None |}.

Lemma build_sidebar_gate_witness :
  clicked inp_no_click && is_some (uploaded inp_no_click) && prefix "sk-" (secret_key sess_ready)
    = false
  /\ build_sidebar sv_ok inp_no_click sess_ready
     = (inr tt, add_event (UI_title "InkChatGPT") sess_ready).
Proof. split; [reflexivity|]. apply build_sidebar_gate. reflexivity. Defined.

Lemma handle_question_secret_key (sv : Services) (q : string) (s : Sess) :
  secret_key (snd (handle_question sv q s)) = secret_key s.
Proof.
  destruct s as [h [c|] m k tr ix]; [|reflexivity].
  unfold handle_question, get_crc, get_history, get_messages; run.
  destruct h as [h|]; run;
  destruct (crc_run sv c q _) as [e|a]; run; try reflexivity;
  destruct m as [m|]; run; try reflexivity;
  match goal with |- context [write_all ?ms ?st] =>
    destruct (write_all_state ms st) as [ev Hev]; rewrite Hev end; run;
  destruct (llm_invoke sv k m); reflexivity.
Qed.

(** [main] keeps a key already in the secrets; otherwise it stores the key
    typed in the sidebar (possibly empty) as the secret, whatever happens
    afterwards in the run. *)
Theorem main_secret_key (sv : Services) (inp : Inputs) (s : Sess) :
  secret_key (snd (main sv inp s))
  = if truthy (secret_key s) then secret_key s else typed_key inp.
Proof.
  destruct s as [h c m k tr ix]. cbn [secret_key].
  unfold main; run.
  unfold get_messages; run.
  repeat (match goal with
          | |- context [if ?b then _ else _] => destruct b
          | |- context [match ?o with Some _ => _ | None => _ end] => destruct o
          end; run);
    first [reflexivity | rewrite handle_question_secret_key; reflexivity].
Qed.

(** With a key in the secrets, a non-empty question submitted to the chat
    input is handled on a session whose displayed messages are exactly the
    greeting and that question, with Conversation Memory and the chain as
    they were. *)
Theorem main_dispatches_question (sv : Services) (inp : Inputs) (s : Sess) (p : string) :
  truthy (secret_key s) = true -> chat_text inp = Some p -> truthy p = true ->
  main sv inp s
  = handle_question sv p
      {| history := history s; crc := crc s;
         messages := Some [greeting; {| role := User_role; content := p |}];
         secret_key := secret_key s;
         trace := trace s ++ [UI_write Assistant_role assistant_message; UI_write User_role p];
         collection := collection s |}.
Proof.
  intros Hk Hc Hp. destruct s as [h c m k tr ix]; cbn in Hk |- *.
  unfold main; run_noapp. rewrite Hk; run_noapp. rewrite Hk, Hc; run_noapp. rewrite Hp; run_noapp.
  unfold add_event, set_messages; cbn. rewrite <- app_assoc. reflexivity.
Qed.

Definition inp_ask : Inputs :=
  {| typed_key := ""; uploaded := None; clicked := false; chat_text := Some "hi" |}.

Lemma main_dispatches_question_witness :
  (truthy (secret_key sess_ready) = true /\ chat_text inp_ask = Some "hi" /\ truthy "hi" = true)
  /\ main sv_ok inp_ask sess_ready
     = handle_question sv_ok "hi"
         {| history := history sess_ready; crc := crc sess_ready;
            messages := Some [greeting; {| role := User_role; content := "hi" |}];
            secret_key := secret_key sess_ready;
            trace := trace sess_ready ++ [UI_write Assistant_role assistant_message;
                                          UI_write User_role "hi"];
            collection := collection sess_ready |}.
Proof.
  split; [repeat split; reflexivity|].
  apply main_dispatches_question; reflexivity.
Defined.

(** When [crc.run] raises, [handle_question] stops there: the streaming
    chat model is never called, the displayed messages are untouched, and
    the only changes are the (possibly new, empty) history and the call. *)
Theorem handle_question_crc_failure (sv : Services) (q : string) (s : Sess) (c : Chain) (e : exn) :
  crc s = Some c -> crc_run sv c q (hist_of s) = inl e ->
  handle_question sv q s
  = (inl e, {| history := Some (hist_of s); crc := crc s; messages := messages s;
               secret_key := secret_key s; trace := trace s ++ [Call "crc.run"];
               collection := collection s |}).
Proof.
  intros Hc He. destruct s as [h c0 m k tr ix]; cbn in Hc |- *; subst c0.
  unfold hist_of in He |- *; cbn in He |- *.
  unfold handle_question, get_crc, get_history; run_noapp.
  destruct h as [h|]; run_noapp; rewrite He; run_noapp; reflexivity.
Qed.

Definition sv_crc_fails : Services := {|
  save_file := fun _ _ => inr tt;
  load := fun _ _ => inr [];
  from_documents := fun _ _ => inr {| vs_id := 1 |};
  upserted_on_failure := fun _ _ => 0;
  init_chain := fun _ _ => inr {| crc_id := 7 |};
  crc_run := fun _ _ _ => inl (ServiceError "crc.run" "RateLimitError");
  llm_invoke := fun _ _ => inr "chat" |}.

Lemma handle_question_crc_failure_witness :
  (crc sess_ready = Some {| crc_id := 7 |}
   /\ crc_run sv_crc_fails {| crc_id := 7 |} "hi" (hist_of sess_ready)
      = inl (ServiceError "crc.run" "RateLimitError"))
  /\ handle_question sv_crc_fails "hi" sess_ready
     = (inl (ServiceError "crc.run" "RateLimitError"),
        {| history := Some (hist_of sess_ready); crc := crc sess_ready;
           messages := messages sess_ready; secret_key := secret_key sess_ready;
           trace := trace sess_ready ++ [Call "crc.run"];
           collection := collection sess_ready |}).
Proof.
  split; [split; reflexivity|].
  apply (handle_question_crc_failure _ _ _ {| crc_id := 7 |}); reflexivity.
Defined.

(** *** The loader dispatch for a supported format *)

(** When the extension of the file name selects a loader, the upload is
    saved, loaded with that loader from the saved path, split by the
    1000/200 chunker and embedded with the session's key; the result is the
    new vector store, or the first error of these calls. *)
Theorem load_supported_format (sv : Services) (f : UploadedFile) (s : Sess) (ld : Loader) :
  loader_for (snd (splitext (chars (name f)))) = Some ld ->
  fst (load_and_process_file sv f s)
  = match save_file sv (saved_path f) (data f) with
    | inl e => inl e
    | inr _ =>
        match load sv ld (saved_path f) with
        | inl e => inl e
        | inr docs =>
            match from_documents sv (split_documents text_splitter docs) (secret_key s) with
            | inl e => inl e
            | inr v => inr (Some v)
            end
        end
    end.
Proof.
  intro Hl. rewrite <- splitext_path_join_ext in Hl.
  unfold load_and_process_file, saved_path.
  unfold bind at 1, call at 1, bind at 1, emit at 1, modify at 1.
  destruct (save_file sv _ (data f)) as [e|u]; [reflexivity|].
  unfold bind at 1, emit at 1, modify at 1.
  destruct (splitext (path_join (chars "./") (chars (name f)))) as [root ext].
  cbn in Hl. rewrite Hl. run.
  destruct (load sv ld _) as [e|docs]; run; [reflexivity|].
  destruct (from_documents sv _ (secret_key s)); reflexivity.
Qed.

Definition pdf_file : UploadedFile := {| name := "report.pdf"; data := "%PDF" |}.

Lemma load_supported_format_witness :
  loader_for (snd (splitext (chars (name pdf_file)))) = Some PyPDFLoader
  /\ fst (load_and_process_file sv_ok pdf_file sess_ready)
     = match save_file sv_ok (saved_path pdf_file) (data pdf_file) with
       | inl e => inl e
       | inr _ =>
           match load sv_ok PyPDFLoader (saved_path pdf_file) with
           | inl e => inl e
           | inr docs =>
               match from_documents sv_ok (split_documents text_splitter docs)
                       (secret_key sess_ready) with
               | inl e => inl e
               | inr v => inr (Some v)
               end
           end
       end.
Proof.
  split; [vm_compute; reflexivity|].
  apply load_supported_format. vm_compute. reflexivity.
Defined.

(** *** The retrieval chain is only set by the sidebar *)

Lemma handle_question_crc (sv : Services) (q : string) (s : Sess) :
  crc (snd (handle_question sv q s)) = crc s.
Proof.
  destruct s as [h [c|] m k tr ix]; [|reflexivity].
  unfold handle_question, get_crc, get_history, get_messages; run.
  destruct h as [h|]; run;
  destruct (crc_run sv c q _) as [e|a]; run; try reflexivity;
  destruct m as [m|]; run; try reflexivity;
  match goal with |- context [write_all ?ms ?st] =>
    destruct (write_all_state ms st) as [ev Hev]; rewrite Hev end; run;
  destruct (llm_invoke sv k m); reflexivity.
Qed.

Lemma main_crc (sv : Services) (inp : Inputs) (s : Sess) :
  crc (snd (main sv inp s)) = crc s.
Proof.
  destruct s as [h c m k tr ix]. cbn [crc].
  unfold main, get_messages; run.
  repeat (match goal with
          | |- context [if ?b then _ else _] => destruct b
          | |- context [match ?o with Some _ => _ | None => _ end] => destruct o
          end; run);
    first [reflexivity | rewrite handle_question_crc; reflexivity].
Qed.

(** [main] never replaces or drops the retrieval chain, whether or not a
    question is asked and whether or not answering it fails. *)
Theorem main_preserves_crc (sv : Services) (inp : Inputs) (s : Sess) :
  crc (snd (main sv inp s)) = crc s.
Proof. apply main_crc. Qed.

(** *** The chunker *)

Lemma is_prefix_app (p t : str) : is_prefix p t = true -> p ++ skipn (length p) t = t.
Proof.
  revert t. induction p as [|x p IH]; intros t H; [reflexivity|].
  destruct t as [|y t]; [discriminate|].
  cbn in H. apply andb_true_iff in H. destruct H as [Hxy H].
  apply Ascii.eqb_eq in Hxy. subst y. cbn. rewrite IH; auto.
Qed.

Lemma split_on_go_concat (fuel : nat) (sep t cur : str) :
  exists p0 rest, split_on_go fuel sep t cur = p0 :: rest
                  /\ p0 ++ concat (map (fun p => sep ++ p) rest) = rev cur ++ t.
Proof.
  revert t cur. induction fuel as [|fuel IH]; intros t cur.
  - exists (rev cur ++ t), []. cbn. rewrite app_nil_r. auto.
  - destruct t as [|c t'].
    + exists (rev cur), []. cbn. rewrite !app_nil_r. auto.
    + cbn [split_on_go]. destruct (is_prefix sep (c :: t')) eqn:Hp.
      * destruct (IH (skipn (length sep) (c :: t')) []) as (p0 & rest & E & H).
        exists (rev cur), (p0 :: rest). rewrite E. split; [reflexivity|].
  cbn [map concat]. rewrite <- (app_assoc sep p0), H.
        cbn [rev app]. rewrite is_prefix_app; auto.
      * destruct (IH t' (c :: cur)) as (p0 & rest & E & H).
        exists p0, rest. split; [exact E|]. rewrite H. cbn [rev].
        rewrite <- app_assoc. reflexivity.
Qed.

Lemma concat_filter_nonempty (l : list str) :
  concat (filter (fun s => negb (str_eqb s [])) l) = concat l.
Proof. induction l as [|[|c x] l IH]; cbn; congruence. Qed.

Lemma split_text_with_regex_concat_aux (t sep : str) :
  concat (split_text_with_regex t sep) = t.
Proof.
  unfold split_text_with_regex. rewrite concat_filter_nonempty.
  destruct sep as [|c sep'].
  - induction t as [|x t IH]; cbn; congruence.
  - unfold split_on. destruct (split_on_go_concat (S (length t)) (c :: sep') t [])
      as (p0 & rest & E & H).
    rewrite E. cbn [concat]. exact H.
Qed.

(** Splitting with [keep_separator=True] loses no text: the pieces, each
    separator kept at the start of the piece after it, concatenate back to
    the text, whatever the separator. *)
Theorem split_text_with_regex_concat (t sep : str) :
  concat (split_text_with_regex t sep) = t.
Proof. apply split_text_with_regex_concat_aux. Qed.


Lemma merge_go_nonempty (ts : TextSplitter) (sep : str) (splits docs cur : list str)
  (total : nat) :
  Forall (fun c => c <> []) docs ->
  Forall (fun c => c <> []) (merge_go ts sep splits docs cur total).
Proof.
  assert (Hj : forall cur, Forall (fun c : str => c <> []) (opt_to_list (join_docs cur sep))).
  { intro c0. unfold join_docs. destruct (strip (join sep c0)); cbn; auto.
    constructor; [discriminate|constructor]. }
  revert docs cur total. induction splits as [|d rest IH]; intros docs cur total Hd.
  - cbn. apply Forall_app; auto.
  - cbn [merge_go].
    destruct (Nat.ltb (chunk_size ts) _); [destruct cur as [|c0 cur0]|].
    + apply IH; auto.
    + destruct (pop_front ts sep (length d) (c0 :: cur0) total). apply IH.
      apply Forall_app; auto.
    + apply IH; auto.
Qed.

Lemma split_loop_nonempty (ts : TextSplitter) (on_big : str -> list str) (ss good : list str) :
  (forall s, In s ss -> Forall (fun c => c <> []) (on_big s)) ->
  Forall (fun c => c <> []) (split_loop ts on_big ss good).
Proof.
  revert good. induction ss as [|s rest IH]; intros good Hbig; cbn [split_loop].
  - destruct good; [constructor|]. apply merge_go_nonempty. constructor.
  - destruct (Nat.ltb (length s) (chunk_size ts)).
    + apply IH. intros; apply Hbig; right; auto.
    + apply Forall_app; split;
        [destruct good; [constructor|]; apply merge_go_nonempty; constructor|].
      apply Forall_app; split; [apply Hbig; left; auto|].
      apply IH. intros; apply Hbig; right; auto.
Qed.

Lemma split_text_with_regex_nonempty (t sep s : str) :
  In s (split_text_with_regex t sep) -> s <> [].
Proof.
  unfold split_text_with_regex. intro H. apply filter_In in H. destruct H as [_ H].
  destruct s; [discriminate|discriminate].
Qed.

Lemma split_text_go_nonempty (ts : TextSplitter) (fuel : nat) (t : str) (seps : list str) :
  Forall (fun c => c <> []) (split_text_go ts fuel t seps).
Proof.
  revert t seps. induction fuel as [|fuel IH]; intros t seps; cbn [split_text_go]; [constructor|].
  destruct (choose_sep seps t) as [sep new].
  apply split_loop_nonempty. intros s Hs.
  destruct new; [|apply IH].
  constructor; [eapply split_text_with_regex_nonempty; eauto|constructor].
Qed.

(** The chunker never produces an empty chunk, whatever its sizes and
    whatever the text: the pieces it merges are stripped and dropped when
    empty, and a piece it keeps unsplit is a non-empty split. *)
Theorem split_text_no_empty_chunk (ts : TextSplitter) (t : str) :
  Forall (fun c => c <> []) (split_text ts t).
Proof. apply split_text_go_nonempty. Qed.

Lemma merge_go_short (ts : TextSplitter) (splits docs cur : list str) (total : nat) :
  total = length (concat cur) ->
  length (concat cur) + length (concat splits) <= chunk_size ts ->
  merge_go ts [] splits docs cur total = docs ++ opt_to_list (join_docs (cur ++ splits) []).
Proof.
  revert cur total. induction splits as [|d rest IH]; intros cur total Ht Hle.
  - cbn. rewrite app_nil_r. reflexivity.
  - rewrite merge_go_cons. cbn [concat] in Hle. rewrite length_app in Hle.
    replace (Nat.ltb (chunk_size ts) (total + length d)) with false
      by (symmetry; apply Nat.ltb_ge; lia).
    rewrite IH.
    + rewrite <- app_assoc. reflexivity.
    + rewrite concat_app, length_app; cbn. rewrite app_nil_r. lia.
    + rewrite concat_app, length_app; cbn. rewrite app_nil_r. lia.
Qed.

Lemma split_loop_short (ts : TextSplitter) (on_big : str -> list str) (ss good : list str) :
  Forall (fun s => length s < chunk_size ts) ss ->
  split_loop ts on_big ss good
  = match good ++ ss with [] => [] | _ => merge_splits ts [] (good ++ ss) end.
Proof.
  revert good. induction ss as [|s rest IH]; intros good Hs.
  - cbn. rewrite app_nil_r. reflexivity.
  - inversion Hs as [|? ? Hl Hrest]; subst. cbn [split_loop].
    replace (Nat.ltb (length s) (chunk_size ts)) with true by (symmetry; apply Nat.ltb_lt; lia).
    rewrite IH by auto. rewrite <- app_assoc. reflexivity.
Qed.

Lemma in_concat_length (l : list str) (x : str) : In x l -> length x <= length (concat l).
Proof.
  induction l as [|y l IH]; intro H; [destruct H|].
  cbn [concat]. rewrite length_app. destruct H as [->|H]; [lia|]. specialize (IH H). lia.
Qed.

(** A text shorter than [chunk_size] comes out of the chunker as a single
    chunk, the text with surrounding whitespace stripped, or as no chunk at
    all when it is only whitespace. *)
Theorem split_text_short (ts : TextSplitter) (t : str) :
  length t < chunk_size ts ->
  split_text ts t = match strip t with [] => [] | c => [c] end.
Proof.
  intro Hlt. unfold split_text. cbn [split_text_go].
  destruct (choose_sep default_separators t) as [sep new].
  pose proof (split_text_with_regex_concat_aux t sep) as Hc.
  rewrite split_loop_short.
  - cbn [app]. destruct (split_text_with_regex t sep) as [|s0 l] eqn:E.
    + cbn in Hc. subst t. reflexivity.
    + unfold merge_splits. rewrite merge_go_short; cbn [concat app length]; [|reflexivity|].
      * unfold join_docs. rewrite join_nil_concat, Hc. destruct (strip t); reflexivity.
      * change (s0 ++ concat l) with (concat (s0 :: l)). rewrite Hc. lia.
  - apply Forall_forall. intros x Hx. apply in_concat_length in Hx. rewrite Hc in Hx. lia.
Qed.

Definition short_text : str := chars "  Hello world.  ".

Lemma split_text_short_witness :
  length short_text < chunk_size text_splitter
  /\ split_text text_splitter short_text
     = match strip short_text with [] => [] | c => [c] end.
Proof.
  split; [apply Nat.ltb_lt; vm_compute; reflexivity|].
  apply split_text_short. apply Nat.ltb_lt; vm_compute; reflexivity.
Defined.


(** A whole run (sidebar, then [main]) ends with the retrieval chain the
    sidebar left: a file processed in the run is the document any later
    question is answered from, and nothing in [main] changes it. *)
Theorem app_run_crc (sv : Services) (inp : Inputs) (s : Sess) :
  crc (snd (app_run sv inp s)) = crc (snd (build_sidebar sv inp s)).
Proof.
  rewrite app_run_unfold.
  destruct (build_sidebar sv inp s) as [[e|u] s']; [reflexivity|].
  apply main_crc.
Qed.

End Extras.
